(** * kyma CLI: the GCP provisioning command and the install command's
      manifest passes

    Shallow embedding of [cmd/kyma/provision/gcp/cmd.go] (flag validation,
    provider construction, the step-tracked provisioning pipeline) and of the
    behaviour that [cmd/kyma/install/cmd_test.go] exercises (label removal,
    image rewriting, certificate import).

    Go values are modelled as follows.
    - [string] is a byte string: Rocq's [string].
    - [error] is the message the error carries ([errors.New], [fmt.Errorf]);
      a nil error is [None].
    - a Go [map] is a [gmap]: no order, unique keys, extensional equality
      (what [reflect.DeepEqual] compares).
    - a call that has effects runs in a small state monad over a trace. *)

From Stdlib Require Import Ascii ZArith.
From stdpp Require Import base option gmap strings list fin_maps.

Open Scope string_scope.
Open Scope list_scope.

(** Go's [error], by its message. *)
Definition error : Type := string.

(** The byte 0x0A, written [\n] in a Go string literal. *)
Definition nl : string := String (Ascii.ascii_of_nat 10) "".

(** [mentions sub s]: [sub] occurs in [s] (Go's [strings.Contains]). *)
Definition mentions (sub s : string) : Prop :=
  ∃ pre post : string, s = pre +:+ sub +:+ post.

(** [contains sub s] decides [mentions sub s] by trying every offset. *)
Fixpoint contains (sub s : string) : bool :=
  String.prefix sub s ||
  match s with
  | EmptyString => false
  | String _ s' => contains sub s'
  end.

(** ** Go's [strings] package, the part the command uses *)
Module strings.

(** [strings.Split(s, sep)] for a separator of one byte: the pieces of [s]
    between the occurrences of [sep], in order.  The result is never
    empty; a string without [sep] comes back as its only piece. *)
Fixpoint Split (s : string) (sep : Ascii.ascii) : list string :=
  match s with
  | EmptyString => [""]
  | String c s' =>
      if Ascii.eqb c sep then "" :: Split s' sep
      else match Split s' sep with
           | piece :: pieces => String c piece :: pieces
           | [] => [String c ""]
           end
  end.

(** [strings.Count(s, sep)] for a separator of one byte. *)
Fixpoint Count (s : string) (sep : Ascii.ascii) : nat :=
  match s with
  | EmptyString => 0
  | String c s' => (if Ascii.eqb c sep then 1 else 0) + Count s' sep
  end.

End strings.

(** ** [cmd/kyma/provision/gcp] *)
Module gcp.

(** The fields of [Options] that [cmd.go] reads.  [Verbose] and
    [KubeconfigPath] come from the embedded [cli.Options]. *)
Record Options : Type := {
  Name : string;
  Project : string;
  CredentialsFile : string;
  KubernetesVersion : string;
  Location : string;
  MachineType : string;
  DiskSizeGB : Z;
  NodeCount : Z;
  Extra : list string;
  Verbose : bool;
  KubeconfigPath : string
}.

(** hydroform's [types.Cluster], the fields [newCluster] fills. *)
Record Cluster : Type := {
  cl_Name : string;
  cl_KubernetesVersion : string;
  cl_DiskSizeGB : Z;
  cl_NodeCount : Z;
  cl_Location : string;
  cl_MachineType : string
}.

Inductive ProviderType : Type := GCP.

(** hydroform's [types.Provider].  [CustomConfigurations] is a
    [map[string]interface{}]; [newProvider] only ever stores strings. *)
Record Provider : Type := {
  Type_ : ProviderType;
  ProjectName : string;
  CredentialsFilePath : string;
  CustomConfigurations : gmap string string
}.

Record command : Type := { opts : Options }.

(** [validateFlags]: the [strings.Builder] is the string built so far. *)
Definition validateFlags (c : command) : option error :=
  let errMessage := "" in
  let errMessage :=
    if String.eqb (Name (opts c)) ""
    then errMessage +:+ nl +:+ "Required flag `name` has not been set."
    else errMessage in
  let errMessage :=
    if String.eqb (Project (opts c)) ""
    then errMessage +:+ nl +:+ "Required flag `project` has not been set."
    else errMessage in
  let errMessage :=
    if String.eqb (CredentialsFile (opts c)) ""
    then errMessage +:+ nl +:+ "Required flag `credentials` has not been set."
    else errMessage in
  if negb (String.length errMessage =? 0)%nat
  then Some errMessage
  else None.

Definition newCluster (o : Options) : Cluster :=
  {| cl_Name := Name o;
     cl_KubernetesVersion := KubernetesVersion o;
     cl_DiskSizeGB := DiskSizeGB o;
     cl_NodeCount := NodeCount o;
     cl_Location := Location o;
     cl_MachineType := MachineType o |}.

(** The [fmt.Errorf] of [newProvider]. *)
Definition wrongFormat (e : string) : error :=
  "Wrong format for extra configuration " +:+ e +:+
  ". Please provide NAME=VALUE pairs.".

(** [p.CustomConfigurations[k] = v] on the provider under construction. *)
Definition setCustomConfiguration (k v : string) (p : Provider) : Provider :=
  {| Type_ := Type_ p;
     ProjectName := ProjectName p;
     CredentialsFilePath := CredentialsFilePath p;
     CustomConfigurations := <[k := v]> (CustomConfigurations p) |}.

(** The [for _, e := range o.Extra] loop of [newProvider]; [p] is the
    provider as mutated so far.  The early [return p, fmt.Errorf(...)]
    hands back that same provider. *)
Fixpoint newProvider_range (extra : list string) (p : Provider)
  : Provider * option error :=
  match extra with
  | [] => (p, None)
  | e :: extra' =>
      let v := strings.Split e "="%char in
      if negb (length v =? 2)%nat
      then (p, Some (wrongFormat e))
      else newProvider_range extra'
             (setCustomConfiguration (nth 0 v "") (nth 1 v "") p)
  end.

Definition newProvider (o : Options) : Provider * option error :=
  let p := {| Type_ := GCP;
              ProjectName := Project o;
              CredentialsFilePath := CredentialsFile o;
              CustomConfigurations := ∅ |} in
  newProvider_range (Extra o) p.

(** *** The pipeline

    Everything [Run] does to the outside is recorded, in order, in a
    trace: the steps it opens and closes, the calls it makes to its
    collaborators, what it prints. *)
Inductive Event : Type :=
| LogSetOutputDiscard
| StepStart (description : string)
| StepSuccess (description : string)
| StepFailure (description : string)
| CallProvision (cluster : Cluster) (provider : Provider)
| CallSaveClusterState (cluster : Cluster) (provider : Provider)
| CallCredentials (cluster : Cluster) (provider : Provider)
| CallAppendConfig (kubeconfig : string) (path : string)
| Printf (out : string).

Definition Trace : Type := list Event.

(** A computation with effects: from the trace so far to a result and
    the trace extended. *)
Definition M (A : Type) : Type := Trace → A * Trace.

#[export] Instance M_ret : MRet M := λ A a t, (a, t).
#[export] Instance M_bind : MBind M :=
  λ A B k m t, let '(a, t') := m t in k a t'.

Definition emit (ev : Event) : M unit := λ t, (tt, t ++ [ev]).

(** The collaborators of [Run], outside this repository's core:
    [hf.Provision], [files.SaveClusterState], [hf.Credentials] and
    [kube.AppendConfig], each by what it returns. *)
Record External : Type := {
  hf_Provision : Cluster → Provider → Cluster * option error;
  files_SaveClusterState : Cluster → Provider → option error;
  hf_Credentials : Cluster → Provider → string * option error;
  kube_AppendConfig : string → string → option error
}.

(** A step as [cli.Command.NewStep] hands it out: known by its
    description. *)
Record Step : Type := { description : string }.

Definition NewStep (msg : string) : M Step :=
  emit (StepStart msg);; mret {| description := msg |}.
Definition Success (s : Step) : M unit := emit (StepSuccess (description s)).
Definition Failure (s : Step) : M unit := emit (StepFailure (description s)).

Definition Provision (ext : External) (cluster : Cluster) (provider : Provider)
  : M (Cluster * option error) :=
  emit (CallProvision cluster provider);;
  mret (hf_Provision ext cluster provider).

Definition SaveClusterState (ext : External) (cluster : Cluster)
  (provider : Provider) : M (option error) :=
  emit (CallSaveClusterState cluster provider);;
  mret (files_SaveClusterState ext cluster provider).

Definition Credentials (ext : External) (cluster : Cluster)
  (provider : Provider) : M (string * option error) :=
  emit (CallCredentials cluster provider);;
  mret (hf_Credentials ext cluster provider).

Definition AppendConfig (ext : External) (kubeconfig path : string)
  : M (option error) :=
  emit (CallAppendConfig kubeconfig path);;
  mret (kube_AppendConfig ext kubeconfig path).

Definition happyMessage (name : string) : string :=
  nl +:+ "GCP cluster installed" +:+ nl +:+
  "Kubectl correctly configured: pointing to " +:+ name +:+ nl +:+ nl +:+
  "Happy GCP-ing! :)" +:+ nl.

Definition Run (ext : External) (c : command) : M (option error) :=
  match validateFlags c with
  | Some err => mret (Some err)
  | None =>
      let cluster := newCluster (opts c) in
      let '(provider, err) := newProvider (opts c) in
      match err with
      | Some err => mret (Some err)
      | None =>
          (if negb (Verbose (opts c)) then emit LogSetOutputDiscard
           else mret tt);;
          s ← NewStep "Provisioning GCP cluster";
          '(cluster, err) ← Provision ext cluster provider;
          match err with
          | Some err => Failure s;; mret (Some err)
          | None =>
              Success s;;
              s ← NewStep "Saving cluster state";
              err ← SaveClusterState ext cluster provider;
              match err with
              | Some err => Failure s;; mret (Some err)
              | None =>
                  Success s;;
                  s ← NewStep "Importing kubeconfig";
                  '(kubeconfig, err) ← Credentials ext cluster provider;
                  match err with
                  | Some err => Failure s;; mret (Some err)
                  | None =>
                      err ← AppendConfig ext kubeconfig
                              (KubeconfigPath (opts c));
                      match err with
                      | Some err => Failure s;; mret (Some err)
                      | None =>
                          Success s;;
                          emit (Printf (happyMessage (cl_Name cluster)));;
                          mret None
                      end
                  end
              end
          end
      end
  end.

(** The events of the steps that follow provisioning: opening, closing
    or failing "Saving cluster state" or "Importing kubeconfig", the
    calls those steps make, and the closing message. *)
Definition after_provisioning (ev : Event) : bool :=
  match ev with
  | StepStart d | StepSuccess d | StepFailure d =>
      negb (String.eqb d "Provisioning GCP cluster")
  | CallSaveClusterState _ _ | CallCredentials _ _ | CallAppendConfig _ _
  | Printf _ => true
  | LogSetOutputDiscard | CallProvision _ _ => false
  end.

(** *** Vocabulary of the statements *)

(** An extra pair that [newProvider] accepts: [strings.Split] on "="
    yields exactly two parts. *)
Definition wellFormed (e : string) : Prop :=
  length (strings.Split e "=") = 2.

(** What [newProvider] does with one accepted pair. *)
Definition applyPair (p : Provider) (e : string) : Provider :=
  let v := strings.Split e "=" in
  setCustomConfiguration (nth 0 v "") (nth 1 v "") p.

(** The provider of [o] with exactly the pairs [pairs] applied, in order. *)
Definition applied (pairs : list string) (o : Options) : Provider :=
  foldl applyPair
    {| Type_ := GCP;
       ProjectName := Project o;
       CredentialsFilePath := CredentialsFile o;
       CustomConfigurations := ∅ |} pairs.

(** [reported ext c provider description e]: in the run of [c] with
    provider [provider], the collaborator called in the step
    [description] is reached and reports the error [e]. *)
Inductive reported (ext : External) (c : command) (provider : Provider)
  : string → error → Prop :=
| reported_provision cluster e :
    hf_Provision ext (newCluster (opts c)) provider = (cluster, Some e) →
    reported ext c provider "Provisioning GCP cluster" e
| reported_save cluster e :
    hf_Provision ext (newCluster (opts c)) provider = (cluster, None) →
    files_SaveClusterState ext cluster provider = Some e →
    reported ext c provider "Saving cluster state" e
| reported_credentials cluster kubeconfig e :
    hf_Provision ext (newCluster (opts c)) provider = (cluster, None) →
    files_SaveClusterState ext cluster provider = None →
    hf_Credentials ext cluster provider = (kubeconfig, Some e) →
    reported ext c provider "Importing kubeconfig" e
| reported_append cluster kubeconfig e :
    hf_Provision ext (newCluster (opts c)) provider = (cluster, None) →
    files_SaveClusterState ext cluster provider = None →
    hf_Credentials ext cluster provider = (kubeconfig, None) →
    kube_AppendConfig ext kubeconfig (KubeconfigPath (opts c)) = Some e →
    reported ext c provider "Importing kubeconfig" e.

(** *** Concrete inputs *)

(** The options when no flag is given: the defaults that [NewCmd]
    declares. *)
Definition defaults : Options :=
  {| Name := ""; Project := ""; CredentialsFile := "";
     KubernetesVersion := "1.14"; Location := "europe-west3-a";
     MachineType := "n1-standard-4"; DiskSizeGB := 30; NodeCount := 3;
     Extra := []; Verbose := false; KubeconfigPath := "" |}.

Definition withRequired (name project credentials : string) (o : Options)
  : Options :=
  {| Name := name; Project := project; CredentialsFile := credentials;
     KubernetesVersion := KubernetesVersion o; Location := Location o;
     MachineType := MachineType o; DiskSizeGB := DiskSizeGB o;
     NodeCount := NodeCount o; Extra := Extra o; Verbose := Verbose o;
     KubeconfigPath := KubeconfigPath o |}.

Definition withExtra (extra : list string) (o : Options) : Options :=
  {| Name := Name o; Project := Project o;
     CredentialsFile := CredentialsFile o;
     KubernetesVersion := KubernetesVersion o; Location := Location o;
     MachineType := MachineType o; DiskSizeGB := DiskSizeGB o;
     NodeCount := NodeCount o; Extra := extra; Verbose := Verbose o;
     KubeconfigPath := KubeconfigPath o |}.

Definition demo : Options :=
  withRequired "demo" "my-project" "/keys/sa.json" defaults.

(** Collaborators that all succeed, and variants in which one of them
    reports an error. *)
Definition allFine : External :=
  {| hf_Provision := λ cluster _, (cluster, None);
     files_SaveClusterState := λ _ _, None;
     hf_Credentials := λ _ _, ("apiVersion: v1", None);
     kube_AppendConfig := λ _ _, None |}.

Definition provisionFails (e : error) : External :=
  {| hf_Provision := λ cluster _, (cluster, Some e);
     files_SaveClusterState := files_SaveClusterState allFine;
     hf_Credentials := hf_Credentials allFine;
     kube_AppendConfig := kube_AppendConfig allFine |}.

Definition saveFails (e : error) : External :=
  {| hf_Provision := hf_Provision allFine;
     files_SaveClusterState := λ _ _, Some e;
     hf_Credentials := hf_Credentials allFine;
     kube_AppendConfig := kube_AppendConfig allFine |}.

(** *** Reading a trace *)

(** The collaborators, by name. *)
Inductive Collaborator : Type :=
| TheProvisioner
| TheStateFile
| TheCredentials
| TheKubeconfig.

(** The collaborator an event calls, if it is a call. *)
Definition callOf (ev : Event) : option Collaborator :=
  match ev with
  | CallProvision _ _ => Some TheProvisioner
  | CallSaveClusterState _ _ => Some TheStateFile
  | CallCredentials _ _ => Some TheCredentials
  | CallAppendConfig _ _ => Some TheKubeconfig
  | _ => None
  end.

(** The description of the step an event opens, if it opens one. *)
Definition stepOpened (ev : Event) : option string :=
  match ev with
  | StepStart d => Some d
  | _ => None
  end.

Definition isPrintf (ev : Event) : bool :=
  match ev with Printf _ => true | _ => false end.

Definition isLogSetOutputDiscard (ev : Event) : bool :=
  match ev with LogSetOutputDiscard => true | _ => false end.

(** Where a run stands with respect to its steps: between steps, inside
    the step [d], or over because a step failed. *)
Inductive Phase : Type :=
| Idle
| Open (d : string)
| Aborted.

(** The discipline of steps, one event at a time: a step opens only
    between steps, is closed under its own description, collaborators are
    called only inside a step, the log is silenced and the message is
    printed only between steps, and nothing follows a failure. *)
Definition advance (ph : Phase) (ev : Event) : option Phase :=
  match ph, ev with
  | Idle, LogSetOutputDiscard => Some Idle
  | Idle, Printf _ => Some Idle
  | Idle, StepStart d => Some (Open d)
  | Open d, StepSuccess d' => if String.eqb d d' then Some Idle else None
  | Open d, StepFailure d' => if String.eqb d d' then Some Aborted else None
  | Open d, CallProvision _ _ => Some (Open d)
  | Open d, CallSaveClusterState _ _ => Some (Open d)
  | Open d, CallCredentials _ _ => Some (Open d)
  | Open d, CallAppendConfig _ _ => Some (Open d)
  | _, _ => None
  end.

Fixpoint follow (ph : Phase) (t : Trace) : option Phase :=
  match t with
  | [] => Some ph
  | ev :: t' =>
      match advance ph ev with
      | Some ph' => follow ph' t'
      | None => None
      end
  end.

(** The name and the value of an accepted pair: [v[0]] and [v[1]]. *)
Definition nameOf (e : string) : string := nth 0 (strings.Split e "=") "".
Definition valueOf (e : string) : string := nth 1 (strings.Split e "=") "".

(** The pair NAME=VALUE as the user writes it. *)
Definition pair (nv : string * string) : string := nv.1 +:+ "=" +:+ nv.2.

(** The three lines of [validateFlags]. *)
Definition nameLine : string := "Required flag `name` has not been set.".
Definition projectLine : string := "Required flag `project` has not been set.".
Definition credentialsLine : string :=
  "Required flag `credentials` has not been set.".

(** Collaborators of which the last one, [kube.AppendConfig], fails. *)
Definition appendFails (e : error) : External :=
  {| hf_Provision := hf_Provision allFine;
     files_SaveClusterState := files_SaveClusterState allFine;
     hf_Credentials := hf_Credentials allFine;
     kube_AppendConfig := λ _ _, Some e |}.

(** A provisioner that names the cluster it created itself. *)
Definition renaming (name : string) : External :=
  {| hf_Provision := λ cluster _,
       ({| cl_Name := name;
           cl_KubernetesVersion := cl_KubernetesVersion cluster;
           cl_DiskSizeGB := cl_DiskSizeGB cluster;
           cl_NodeCount := cl_NodeCount cluster;
           cl_Location := cl_Location cluster;
           cl_MachineType := cl_MachineType cluster |}, None);
     files_SaveClusterState := files_SaveClusterState allFine;
     hf_Credentials := hf_Credentials allFine;
     kube_AppendConfig := kube_AppendConfig allFine |}.

End gcp.

(** ** [cmd/kyma/install]: the manifest passes and the certificate import

    [cmd_test.go] calls [removeActionLabel], [replaceDockerImageURL] and
    [importCertificate]; the file that declares them is not part of the
    sources at hand, so their embedding follows the specification (sections
    3, 4.1 to 4.5 and 7) and is checked against the data of the tests. *)
Module install.

(** Modelled from the spec: the data model of section 3.  A scalar of a
    parsed manifest is a string, a number, a boolean or null. *)
Inductive Scalar : Type :=
| SString (s : string)
| SNumber (n : Z)
| SBool (b : bool)
| SNull.

#[export] Instance Scalar_eq_dec : EqDecision Scalar.
Proof. solve_decision. Defined.

#[export] Instance Scalar_countable : Countable Scalar.
Proof.
  refine (inj_countable'
    (λ k, match k with
          | SString s => inl s
          | SNumber n => inr (inl n)
          | SBool b => inr (inr (inl b))
          | SNull => inr (inr (inr ()))
          end)
    (λ x, match x with
          | inl s => SString s
          | inr (inl n) => SNumber n
          | inr (inr (inl b)) => SBool b
          | inr (inr (inr ())) => SNull
          end) _).
  by intros [].
Defined.

(** Document Value: a Mapping (whose keys need not be strings), a
    Sequence or a Scalar.  Go's [map[interface{}]interface{}] and
    [map[string]interface{}] are both Mappings, [[]interface{}] is a
    Sequence. *)
#[warnings="-register-all"]
Inductive Value : Type :=
| Mapping (m : gmap Scalar Value)
| Sequence (l : list Value)
| Scal (s : Scalar).

Definition Document : Type := Value.
Definition ManifestDocumentSet : Type := list Document.

(** StructuralError: a document does not have the shape a pass expects. *)
Inductive StructuralError : Type :=
| MissingPath
| WrongVariant
| MissingKey (key : Scalar).

Inductive Result (A : Type) : Type :=
| Ok (a : A)
| Err (e : StructuralError).
Arguments Ok {A} a.
Arguments Err {A} e.

#[export] Instance Result_ret : MRet Result := λ A a, Ok a.
#[export] Instance Result_bind : MBind Result :=
  λ A B k r, match r with Ok a => k a | Err e => Err e end.

(** One segment of a path: a key of a Mapping or a position of a
    Sequence. *)
Inductive Segment : Type :=
| Key (k : Scalar)
| Index (i : nat).

Definition field (name : string) : Segment := Key (SString name).

(** One step down from [v]; nothing when the node is absent or is not
    the variant the segment asks for. *)
Definition child (seg : Segment) (v : Value) : option Value :=
  match seg, v with
  | Key k, Mapping m => m !! k
  | Index i, Sequence l => l !! i
  | _, _ => None
  end.

(** Modelled from the spec: the accessor [get] of section 4.1. *)
Fixpoint get (path : list Segment) (v : Value) : option Value :=
  match path with
  | [] => Some v
  | seg :: path' => child seg v ≫= get path'
  end.

(** Modelled from the spec: the traversal behind [set] and [removeKey]
    of section 4.1.  [f] rebuilds the node at [path]; every
    node on the way must exist and be of the variant its segment asks
    for, nothing is created. *)
Fixpoint update (path : list Segment) (f : Value → Result Value)
  (v : Value) : Result Value :=
  match path with
  | [] => f v
  | Key k :: path' =>
      match v with
      | Mapping m =>
          match m !! k with
          | Some c => c' ← update path' f c; mret (Mapping (<[k := c']> m))
          | None => Err MissingPath
          end
      | _ => Err WrongVariant
      end
  | Index i :: path' =>
      match v with
      | Sequence l =>
          match l !! i with
          | Some c => c' ← update path' f c; mret (Sequence (<[i := c']> l))
          | None => Err MissingPath
          end
      | _ => Err WrongVariant
      end
  end.

(** Modelled from the spec: [removeKey] of section 4.1; fails when
    [parentPath] does not resolve to a Mapping. *)
Definition removeKey (parentPath : list Segment) (key : Scalar)
  (v : Value) : Result Value :=
  update parentPath
    (λ parent, match parent with
               | Mapping m => Ok (Mapping (delete key m))
               | _ => Err WrongVariant
               end) v.

(** Whether the root [kind] scalar of a document equals [kind]. *)
Definition hasKind (kind : string) (doc : Document) : bool :=
  match get [field "kind"] doc with
  | Some (Scal (SString k)) => String.eqb k kind
  | _ => false
  end.

(** *** LabelStripper *)

Definition labelsPath : list Segment := [field "metadata"; field "labels"].
Definition actionKey : Scalar := SString "action".

(** Modelled from the spec: the body of [removeActionLabel] for one
    document (section 4.2; the function itself is not among the
    sources).  A document that is not an [Installation] is not looked
    at.  An [Installation] must hold [metadata.labels] as a Mapping; a
    Mapping without [action] is reported and the document stays as it
    is. *)
Definition stripDocument (doc : Document) : Document * option StructuralError :=
  if hasKind "Installation" doc then
    match get labelsPath doc with
    | Some (Mapping labels) =>
        match labels !! actionKey with
        | Some _ =>
            match removeKey labelsPath actionKey doc with
            | Ok doc' => (doc', None)
            | Err e => (doc, Some e)
            end
        | None => (doc, Some (MissingKey actionKey))
        end
    | Some _ => (doc, Some WrongVariant)
    | None => (doc, Some MissingPath)
    end
  else (doc, None).

(** Modelled from the spec: [removeActionLabel] (section 4.2).  The
    documents are mutated in place, in order; the set after the call is
    the first component, the reported error the second.  The first
    error ends the pass. *)
Fixpoint removeActionLabel (acc : ManifestDocumentSet)
  : ManifestDocumentSet * option StructuralError :=
  match acc with
  | [] => ([], None)
  | doc :: acc' =>
      match stripDocument doc with
      | (doc', None) =>
          let '(rest, err) := removeActionLabel acc' in (doc' :: rest, err)
      | (doc', Some e) => (doc' :: acc', Some e)
      end
  end.

(** *** ImageRewriter *)

Definition containersPath : list Segment :=
  [field "spec"; field "template"; field "spec"; field "containers"].
Definition imageKey : Scalar := SString "image".

(** Modelled from the spec: what [replaceDockerImageURL] does to one
    entry of [containers] (section 4.3).  The entry must be a Mapping with
    an [image] key, whose value becomes the replacement. *)
Definition rewriteContainer (imageURL : string) (entry : Value) : Result Value :=
  match entry with
  | Mapping container =>
      match container !! imageKey with
      | Some _ => Ok (Mapping (<[imageKey := Scal (SString imageURL)]> container))
      | None => Err (MissingKey imageKey)
      end
  | _ => Err WrongVariant
  end.

Definition rewriteContainers (imageURL : string) (containers : Value)
  : Result Value :=
  match containers with
  | Sequence entries =>
      entries' ← mapM (rewriteContainer imageURL) entries;
      mret (Sequence entries')
  | _ => Err WrongVariant
  end.

Definition rewriteDocument (imageURL : string) (doc : Document)
  : Result Document :=
  update containersPath (rewriteContainers imageURL) doc.

(** Modelled from the spec: [replaceDockerImageURL] (section 4.3; the
    function itself is not among the sources).  Every document is
    rewritten; any structural mismatch aborts the whole batch. *)
Definition replaceDockerImageURL (resources : ManifestDocumentSet)
  (imageURL : string) : Result ManifestDocumentSet :=
  mapM (rewriteDocument imageURL) resources.

(** *** Step and the certificate import *)

Inductive Lifecycle : Type := Pending | Running | Succeeded | Failed | Stopped.

Definition terminal (l : Lifecycle) : bool :=
  match l with Succeeded | Failed | Stopped => true | _ => false end.

(** Modelled from the spec: the in-memory recorder of a Step (section
    4.4): its lifecycle state and its three append-only logs. *)
Record Step : Type := {
  state : Lifecycle;
  statuses : list string;
  infos : list string;
  errors : list string
}.

Definition isSuccessful (s : Step) : bool :=
  match state s with Succeeded => true | _ => false end.
Definition isStopped (s : Step) : bool :=
  match state s with Stopped => true | _ => false end.

(** The step the body of a pipeline stage runs in, before it logged
    anything (the recorder after [Reset]). *)
Definition currentStep : Step :=
  {| state := Running; statuses := []; infos := []; errors := [] |}.

Definition status (msg : string) (s : Step) : Step :=
  {| state := state s; statuses := statuses s ++ [msg];
     infos := infos s; errors := errors s |}.
Definition info (msg : string) (s : Step) : Step :=
  {| state := state s; statuses := statuses s;
     infos := infos s ++ [msg]; errors := errors s |}.
Definition logError (msg : string) (s : Step) : Step :=
  {| state := state s; statuses := statuses s;
     infos := infos s; errors := errors s ++ [msg] |}.

(** No transition leaves a terminal state. *)
Definition finish (l : Lifecycle) (s : Step) : Step :=
  if terminal (state s) then s
  else {| state := l; statuses := statuses s;
          infos := infos s; errors := errors s |}.
Definition succeed : Step → Step := finish Succeeded.
Definition fail : Step → Step := finish Failed.

(** Modelled from the spec: the certifier capability of section 4.5;
    [retrieve] yields the certificate, if any. *)
Class Certifier (C : Type) : Type := { retrieve : C → option string }.

(** The test double of [cmd_test.go]: its certificate is the field [Crt]. *)
Record MockCertifier : Type := { Crt : string }.
#[export] Instance MockCertifier_certifier : Certifier MockCertifier :=
  {| retrieve := λ m, Some (Crt m) |}.

(** What [importCertificate] asks of its collaborators. *)
Inductive Call : Type :=
| Retrieve
| StoreCertificate (certificate : string).

(** The command while a stage runs: its current step and the calls made
    so far. *)
Record World : Type := { CurrentStep : Step; calls : list Call }.

Definition onStep (f : Step → Step) (w : World) : World :=
  {| CurrentStep := f (CurrentStep w); calls := calls w |}.
Definition called (c : Call) (w : World) : World :=
  {| CurrentStep := CurrentStep w; calls := calls w ++ [c] |}.

Definition manualInstructions : string :=
  "Manual OS-specific instructions for certificate import".

(** Modelled from the spec: [importCertificate] (section 4.5; the
    function itself is not among the sources), with the messages that
    [cmd_test.go] expects.  Three branches: skip, retrieval failure,
    success. *)
Definition importCertificate `{Certifier C} (certifier : C)
  (waitRequested : bool) (w : World) : option error * World :=
  if negb waitRequested then
    (None, onStep (logError manualInstructions) w)
  else
    let w := called Retrieve w in
    match retrieve certifier with
    | None | Some "" => (Some "Could not retrieve the certificate", w)
    | Some certificate =>
        let w := called (StoreCertificate certificate) w in
        let w := onStep (status "Kyma root certificate imported") w in
        (None, onStep succeed w)
    end.

(** *** The data of [cmd_test.go] *)

Definition str (s : string) : Value := Scal (SString s).
Definition mapping (entries : list (string * Value)) : Value :=
  Mapping (list_to_map (prod_map SString id <$> entries)).

(** [Test_RemoveActionLabel], "correct data test": [data]. *)
Definition labelled : ManifestDocumentSet :=
  [mapping [("apiVersion", str "installer.kyma-project.io/v1alpha1");
            ("kind", str "Installation");
            ("metadata", mapping [("name", str "kyma-installation");
                                  ("labels", mapping [("action", str "install")])])]].

(** [Test_RemoveActionLabel]: [expectedResult] of both cases and [data]
    of "incorrect data test". *)
Definition unlabelled : ManifestDocumentSet :=
  [mapping [("apiVersion", str "installer.kyma-project.io/v1alpha1");
            ("kind", str "Installation");
            ("metadata", mapping [("name", str "kyma-installation");
                                  ("labels", mapping [])])]].

(** [Test_ReplaceDockerImageURL]: the set whose only container has the
    image [image]. *)
Definition deployment (image : string) : ManifestDocumentSet :=
  [mapping [("apiVersion", str "installer.kyma-project.io/v1alpha1");
            ("kind", str "Deployment");
            ("spec", mapping
               [("template", mapping
                  [("spec", mapping
                     [("serviceAccountName", str "kyma-installer");
                      ("containers", Sequence
                         [mapping [("name", str "kyma-installer-container");
                                   ("image", str image)]])])])])]].

Definition replacedWithData : string := "testImage!".

(** The world of [TestImportCertificate] before each case: the recorder
    after [Reset], no call made. *)
Definition beforeImport : World := {| CurrentStep := currentStep; calls := [] |}.

End install.

(** * Properties *)

(** ** Strings *)

Lemma prefix_append (sub s : string) :
  String.prefix sub s = true → ∃ post, s = sub +:+ post.
Proof.
  revert s. induction sub as [|a sub IH]; intros s Hp.
  - by exists s.
  - destruct s as [|b s]; [done|]. simpl in Hp.
    destruct (Ascii.ascii_dec a b) as [->|]; [|done].
    destruct (IH _ Hp) as [post ->]. by exists post.
Qed.

Lemma append_prefix (sub post : string) : String.prefix sub (sub +:+ post) = true.
Proof.
  induction sub as [|a sub IH]; simpl; [by destruct post|].
  by destruct (Ascii.ascii_dec a a).
Qed.

Lemma contains_unfold (sub s : string) :
  contains sub s =
  String.prefix sub s ||
  match s with EmptyString => false | String _ s' => contains sub s' end.
Proof. by destruct s. Qed.

Lemma contains_mentions (sub s : string) : contains sub s = true ↔ mentions sub s.
Proof.
  split.
  - induction s as [|a s IH]; rewrite contains_unfold; intros H.
    + rewrite orb_false_r in H. destruct (prefix_append _ _ H) as [post Hs].
      by exists "", post.
    + apply orb_true_iff in H as [H|H].
      * destruct (prefix_append _ _ H) as [post Hs]. by exists "", post.
      * destruct (IH H) as (pre & post & ->). by exists (String a pre), post.
  - intros (pre & post & ->). induction pre as [|a pre IH].
    + rewrite contains_unfold. change ("" +:+ ?x) with x.
      by rewrite append_prefix.
    + change (String a pre +:+ ?x) with (String a (pre +:+ x)).
      rewrite contains_unfold, IH. apply orb_true_r.
Qed.

Lemma not_contains_not_mentions (sub s : string) :
  contains sub s = false → ¬ mentions sub s.
Proof. intros H Hm. apply contains_mentions in Hm. congruence. Qed.

Example Split_examples :
  strings.Split "NAME=VALUE" "=" = ["NAME"; "VALUE"]
  ∧ strings.Split "NAME=" "=" = ["NAME"; ""]
  ∧ strings.Split "A=B=C" "=" = ["A"; "B"; "C"]
  ∧ strings.Split "broken" "=" = ["broken"]
  ∧ strings.Split "" "=" = [""].
Proof. by repeat split. Qed.

Lemma Split_length (s : string) (sep : ascii) :
  length (strings.Split s sep) = S (strings.Count s sep).
Proof.
  induction s as [|c s IH]; simpl; [done|].
  destruct (Ascii.eqb c sep); simpl; [by rewrite IH|].
  destruct (strings.Split s sep); simpl in *; [done|lia].
Qed.

(** ** The GCP command *)
Section gcp_properties.
Import gcp.

Lemma wellFormed_dec (e : string) : {wellFormed e} + {¬ wellFormed e}.
Proof. unfold wellFormed. apply Nat.eq_dec. Defined.

Lemma wellFormed_Count (e : string) :
  wellFormed e ↔ strings.Count e "=" = 1.
Proof. unfold wellFormed. rewrite Split_length. lia. Qed.

Lemma newProvider_range_cons_ok e extra p :
  wellFormed e →
  newProvider_range (e :: extra) p = newProvider_range extra (applyPair p e).
Proof.
  unfold wellFormed. intros Hwf. cbn [newProvider_range].
  by rewrite Hwf.
Qed.

Lemma newProvider_range_cons_err e extra p :
  ¬ wellFormed e →
  newProvider_range (e :: extra) p = (p, Some (wrongFormat e)).
Proof.
  unfold wellFormed. intros Hwf. cbn [newProvider_range].
  by destruct (Nat.eqb_spec (length (strings.Split e "=")) 2).
Qed.

Lemma newProvider_range_ok extra p :
  Forall wellFormed extra →
  newProvider_range extra p = (foldl applyPair p extra, None).
Proof.
  intros Hall. revert p. induction Hall as [|e extra He _ IH]; intros p.
  - done.
  - by rewrite newProvider_range_cons_ok, IH.
Qed.

Lemma newProvider_range_err good bad rest p :
  Forall wellFormed good → ¬ wellFormed bad →
  newProvider_range (good ++ bad :: rest) p
  = (foldl applyPair p good, Some (wrongFormat bad)).
Proof.
  intros Hall Hbad. revert p. induction Hall as [|e good He _ IH]; intros p.
  - by apply newProvider_range_cons_err.
  - rewrite <- app_comm_cons, newProvider_range_cons_ok by done. apply IH.
Qed.

Lemma newProvider_range_None extra p :
  snd (newProvider_range extra p) = None → Forall wellFormed extra.
Proof.
  revert p. induction extra as [|e extra IH]; intros p H; [constructor|].
  destruct (wellFormed_dec e) as [He|He].
  - rewrite newProvider_range_cons_ok in H by done. constructor; eauto.
  - by rewrite newProvider_range_cons_err in H.
Qed.

(** C5. With name, project and credentials all empty, [validateFlags]
    returns one error whose message holds the line of each of the three
    flags; with all three set it returns no error. *)
Theorem validateFlags_accumulates (c : command) :
  (Name (opts c) = "" → Project (opts c) = "" →
   CredentialsFile (opts c) = "" →
   ∃ msg, validateFlags c = Some msg
     ∧ mentions "Required flag `name` has not been set." msg
     ∧ mentions "Required flag `project` has not been set." msg
     ∧ mentions "Required flag `credentials` has not been set." msg)
  ∧ (Name (opts c) ≠ "" → Project (opts c) ≠ "" →
     CredentialsFile (opts c) ≠ "" → validateFlags c = None).
Proof.
  split.
  - intros Hn Hp Hc. unfold validateFlags. rewrite Hn, Hp, Hc.
    eexists. split; [reflexivity|].
    repeat split; apply contains_mentions; vm_compute; reflexivity.
  - intros Hn Hp Hc. unfold validateFlags.
    apply String.eqb_neq in Hn, Hp, Hc. by rewrite Hn, Hp, Hc.
Qed.

Lemma validateFlags_accumulates_witness :
  (∃ msg, validateFlags {| opts := defaults |} = Some msg
     ∧ mentions "Required flag `name` has not been set." msg
     ∧ mentions "Required flag `project` has not been set." msg
     ∧ mentions "Required flag `credentials` has not been set." msg)
  ∧ validateFlags {| opts := demo |} = None.
Proof.
  split.
  - apply (proj1 (validateFlags_accumulates {| opts := defaults |}));
      reflexivity.
  - apply (proj2 (validateFlags_accumulates {| opts := demo |}));
      discriminate.
Defined.

(** C10. [newProvider] returns no error exactly when every extra pair
    splits on "=" into exactly two parts, that is, holds exactly one
    "=".  "NAME=" is accepted and stored under NAME with the empty
    value; "A=B=C" is rejected. *)
Theorem newProvider_accepts_two_parts (o : Options) :
  (snd (newProvider o) = None
   ↔ Forall (λ e, length (strings.Split e "=") = 2) (Extra o))
  ∧ (∀ e, length (strings.Split e "=") = 2 ↔ strings.Count e "=" = 1)
  ∧ (snd (newProvider (withExtra ["NAME="] o)) = None
     ∧ CustomConfigurations (fst (newProvider (withExtra ["NAME="] o)))
       = {["NAME" := ""]})
  ∧ (snd (newProvider (withExtra ["A=B=C"] o)) = Some (wrongFormat "A=B=C")
     ∧ CustomConfigurations (fst (newProvider (withExtra ["A=B=C"] o))) = ∅).
Proof.
  split; [|split; [apply wellFormed_Count|split; by split]].
  unfold newProvider. split.
  - apply newProvider_range_None.
  - intros Hall. by rewrite newProvider_range_ok.
Qed.

(** C7, as the code has it.  [newProvider] fails on the first malformed
    pair with the error that names it, and applies no pair at or after
    it; the provider it returns with the error has the well-formed
    pairs before it applied.  [Run] drops that provider: it returns the
    error before any step starts and without calling a collaborator. *)
Theorem newProvider_stops_at_first_malformed (o : Options)
  (good rest : list string) (bad : string) :
  Extra o = good ++ bad :: rest →
  Forall wellFormed good → ¬ wellFormed bad →
  newProvider o = (applied good o, Some (wrongFormat bad))
  ∧ (∀ ext t, validateFlags {| opts := o |} = None →
       Run ext {| opts := o |} t = (Some (wrongFormat bad), t)).
Proof.
  intros HE Hgood Hbad.
  assert (newProvider o = (applied good o, Some (wrongFormat bad))) as Hnew.
  { unfold newProvider, applied. rewrite HE.
    by apply newProvider_range_err. }
  split; [done|]. intros ext t Hv. unfold Run. cbn [opts].
  by rewrite Hv, Hnew.
Qed.

Lemma newProvider_stops_at_first_malformed_witness :
  let o := withExtra ["A=B"; "broken"; "C=D"] demo in
  newProvider o = (applied ["A=B"] o, Some (wrongFormat "broken"))
  ∧ (∀ ext t, validateFlags {| opts := o |} = None →
       Run ext {| opts := o |} t = (Some (wrongFormat "broken"), t)).
Proof.
  apply (newProvider_stops_at_first_malformed
           (withExtra ["A=B"; "broken"; "C=D"] demo) ["A=B"] ["C=D"] "broken").
  - reflexivity.
  - constructor; [reflexivity|constructor].
  - vm_compute. discriminate.
Defined.

(** C7, as stated, fails: the pair "A=B" that precedes the malformed
    "broken" is in the custom configurations of the provider that
    [newProvider] returns with its error. *)
Lemma newProvider_partial_application :
  snd (newProvider (withExtra ["A=B"; "broken"] demo))
    = Some (wrongFormat "broken")
  ∧ CustomConfigurations
      (fst (newProvider (withExtra ["A=B"; "broken"] demo))) !! "A"
    = Some "B".
Proof. split; vm_compute; reflexivity. Qed.

(** Running a computation of [M]: the monad laws the proofs use. *)
Lemma run_bind {A B} (m : M A) (k : A → M B) t a t' :
  m t = (a, t') → (m ≫= k) t = k a t'.
Proof. unfold mbind, M_bind. by intros ->. Qed.

Lemma run_NewStep msg t :
  NewStep msg t = ({| description := msg |}, t ++ [StepStart msg]).
Proof. done. Qed.

Lemma run_quiet (verbose : bool) t :
  (if negb verbose then emit LogSetOutputDiscard else mret tt) t
  = (tt, t ++ (if verbose then [] else [LogSetOutputDiscard])).
Proof. destruct verbose; simpl; [by rewrite app_nil_r|done]. Qed.

(** C6. If the provisioning step fails, [Run] returns the error of
    [hf.Provision], and all it has done is open the step, call
    [hf.Provision] and mark the step failed (after silencing the log
    when not verbose): no later step is opened, closed or failed, no
    later collaborator is called, nothing is printed. *)
Theorem Run_fail_fast (ext : External) (c : command) (t : Trace)
  (provider : Provider) (cluster : Cluster) (e : error) :
  validateFlags c = None →
  newProvider (opts c) = (provider, None) →
  hf_Provision ext (newCluster (opts c)) provider = (cluster, Some e) →
  ∃ done_ : Trace,
    Run ext c t = (Some e, t ++ done_)
    ∧ done_ = (if Verbose (opts c) then [] else [LogSetOutputDiscard])
              ++ [StepStart "Provisioning GCP cluster";
                  CallProvision (newCluster (opts c)) provider;
                  StepFailure "Provisioning GCP cluster"]
    ∧ Forall (λ ev, after_provisioning ev = false) done_.
Proof.
  intros Hv Hnew Hprov. eexists. split; [|split; [reflexivity|]].
  - unfold Run. rewrite Hv, Hnew.
    rewrite (run_bind _ _ _ _ _ (run_quiet _ _)).
    rewrite (run_bind _ _ _ _ _ (run_NewStep _ _)).
    unfold Provision, Failure, emit, mbind, M_bind, mret, M_ret.
    rewrite Hprov. cbn. by rewrite <- !app_assoc.
  - destruct (Verbose (opts c)); repeat constructor.
Qed.

Lemma Run_fail_fast_witness :
  ∃ done_ : Trace,
    Run (provisionFails "quota exceeded") {| opts := demo |} []
      = (Some "quota exceeded", [] ++ done_)
    ∧ done_ = (if Verbose demo then [] else [LogSetOutputDiscard])
              ++ [StepStart "Provisioning GCP cluster";
                  CallProvision (newCluster demo) (applied [] demo);
                  StepFailure "Provisioning GCP cluster"]
    ∧ Forall (λ ev, after_provisioning ev = false) done_.
Proof.
  apply (Run_fail_fast (provisionFails "quota exceeded") {| opts := demo |}
           [] (applied [] demo) (newCluster demo) "quota exceeded");
    reflexivity.
Defined.

(** One step of a run: unfold the pipeline's operations and compute. *)
Ltac run :=
  unfold Run, NewStep, Provision, SaveClusterState, Credentials,
    AppendConfig, Success, Failure, emit, mbind, M_bind, mret, M_ret;
  cbn [description].

(** C8, as the code has it.  An error that a collaborator reports
    (provisioning, saving the state, fetching the credentials, merging
    the kubeconfig) is what [Run] returns, unchanged; the description of
    the step is not added to it.  The step in which it occurred is
    marked failed, and that is the last thing the run does. *)
Theorem Run_returns_error_verbatim (ext : External) (c : command)
  (t : Trace) (provider : Provider) (description : string) (e : error) :
  validateFlags c = None →
  newProvider (opts c) = (provider, None) →
  reported ext c provider description e →
  ∃ before : Trace,
    Run ext c t = (Some e, t ++ before ++ [StepFailure description]).
Proof.
  intros Hv Hnew Hrep.
  pose (quiet := if Verbose (opts c) then [] else [LogSetOutputDiscard]).
  assert (∀ k : unit → M (option error),
    ((if negb (Verbose (opts c)) then emit LogSetOutputDiscard
      else mret tt) ≫= k) t = k tt (t ++ quiet)) as Hquiet.
  { intros k. apply run_bind, run_quiet. }
  destruct Hrep as [cluster e Hp | cluster e Hp Hs
                   | cluster kubeconfig e Hp Hs Hc
                   | cluster kubeconfig e Hp Hs Hc Ha].
  - exists (quiet ++ [StepStart "Provisioning GCP cluster";
                      CallProvision (newCluster (opts c)) provider]).
    unfold Run. rewrite Hv, Hnew, Hquiet. run. rewrite Hp.
    by rewrite <- !app_assoc.
  - exists (quiet ++ [StepStart "Provisioning GCP cluster";
                      CallProvision (newCluster (opts c)) provider;
                      StepSuccess "Provisioning GCP cluster";
                      StepStart "Saving cluster state";
                      CallSaveClusterState cluster provider]).
    unfold Run. rewrite Hv, Hnew, Hquiet. run. rewrite Hp, Hs.
    by rewrite <- !app_assoc.
  - exists (quiet ++ [StepStart "Provisioning GCP cluster";
                      CallProvision (newCluster (opts c)) provider;
                      StepSuccess "Provisioning GCP cluster";
                      StepStart "Saving cluster state";
                      CallSaveClusterState cluster provider;
                      StepSuccess "Saving cluster state";
                      StepStart "Importing kubeconfig";
                      CallCredentials cluster provider]).
    unfold Run. rewrite Hv, Hnew, Hquiet. run. rewrite Hp, Hs, Hc.
    by rewrite <- !app_assoc.
  - exists (quiet ++ [StepStart "Provisioning GCP cluster";
                      CallProvision (newCluster (opts c)) provider;
                      StepSuccess "Provisioning GCP cluster";
                      StepStart "Saving cluster state";
                      CallSaveClusterState cluster provider;
                      StepSuccess "Saving cluster state";
                      StepStart "Importing kubeconfig";
                      CallCredentials cluster provider;
                      CallAppendConfig kubeconfig (KubeconfigPath (opts c))]).
    unfold Run. rewrite Hv, Hnew, Hquiet. run. rewrite Hp, Hs, Hc, Ha.
    by rewrite <- !app_assoc.
Qed.

Lemma Run_returns_error_verbatim_witness :
  ∃ before : Trace,
    Run (saveFails "disk full") {| opts := demo |} []
    = (Some "disk full", [] ++ before ++ [StepFailure "Saving cluster state"]).
Proof.
  apply (Run_returns_error_verbatim (saveFails "disk full")
           {| opts := demo |} [] (applied [] demo)
           "Saving cluster state" "disk full").
  - reflexivity.
  - reflexivity.
  - apply (reported_save _ _ _ (newCluster demo)); reflexivity.
Defined.

(** C8, as stated, fails: [hf.Provision] reports "quota exceeded" in
    the step "Provisioning GCP cluster", and [Run] returns "quota
    exceeded", in which the description of the step does not occur. *)
Lemma Run_does_not_wrap :
  reported (provisionFails "quota exceeded") {| opts := demo |}
    (applied [] demo) "Provisioning GCP cluster" "quota exceeded"
  ∧ fst (Run (provisionFails "quota exceeded") {| opts := demo |} [])
    = Some "quota exceeded"
  ∧ ¬ mentions "Provisioning GCP cluster" "quota exceeded".
Proof.
  split; [|split].
  - by apply (reported_provision _ _ _ (newCluster demo)).
  - reflexivity.
  - by apply not_contains_not_mentions.
Qed.

End gcp_properties.

(** ** The install command *)
Section install_properties.
Import install.

(** The tests of [cmd_test.go], run on the embedding. *)
Example Test_RemoveActionLabel_correct_data :
  removeActionLabel labelled = (unlabelled, None).
Proof. vm_compute. reflexivity. Qed.

Example Test_ReplaceDockerImageURL_correct_data :
  replaceDockerImageURL
    (deployment "eu.gcr.io/kyma-project/kyma-installer:63f27f76")
    replacedWithData
  = Ok (deployment replacedWithData).
Proof. vm_compute. reflexivity. Qed.

Example TestImportCertificate_Certificate_import :
  importCertificate {| Crt := "Hi, I am a fake certificate!" |} true
    beforeImport
  = (None,
     {| CurrentStep :=
          {| state := Succeeded;
             statuses := ["Kyma root certificate imported"];
             infos := []; errors := [] |};
        calls := [Retrieve; StoreCertificate "Hi, I am a fake certificate!"] |}).
Proof. reflexivity. Qed.

Example TestImportCertificate_Certificate_retrieval_failed :
  importCertificate {| Crt := "" |} true beforeImport
  = (Some "Could not retrieve the certificate",
     {| CurrentStep := currentStep; calls := [Retrieve] |}).
Proof. reflexivity. Qed.

(** *** Paths *)

Lemma get_field name path root :
  get (field name :: path) (Mapping root) = root !! SString name ≫= get path.
Proof. done. Qed.

Lemma update_field name path f root c :
  root !! SString name = Some c →
  update (field name :: path) f (Mapping root)
  = c' ← update path f c; mret (Mapping (<[SString name := c']> root)).
Proof. intros Hc. cbn [update field]. by rewrite Hc. Qed.

Lemma bind_Ok {A B} (r : Result A) (k : A → Result B) b :
  r ≫= k = Ok b → ∃ a, r = Ok a ∧ k a = Ok b.
Proof. destruct r as [a|e]; [by exists a|done]. Qed.

(** A rebuilt node that [f] leaves alone is left alone at any depth. *)
Lemma update_stable path (f : Value → Result Value) :
  (∀ x x', f x = Ok x' → f x' = Ok x') →
  ∀ v v', update path f v = Ok v' → update path f v' = Ok v'.
Proof.
  intros Hf. induction path as [|[k|i] path IH]; intros v v' Hu.
  - by eapply Hf.
  - destruct v as [m| |]; try done. cbn [update] in Hu.
    destruct (m !! k) as [c|] eqn:Hk; [|done].
    apply bind_Ok in Hu as (c' & Hc & [= <-]).
    cbn [update]. rewrite lookup_insert_eq, (IH _ _ Hc). cbn.
    by rewrite insert_insert_eq.
  - destruct v as [|l|]; try done. cbn [update] in Hu.
    destruct (l !! i) as [c|] eqn:Hi; [|done].
    apply bind_Ok in Hu as (c' & Hc & [= <-]).
    cbn [update]. apply lookup_lt_Some in Hi.
    rewrite list_lookup_insert_eq, (IH _ _ Hc) by done. cbn.
    by rewrite list_insert_insert_eq.
Qed.

Lemma mapM_stable {A} (f : A → Result A) :
  (∀ x x', f x = Ok x' → f x' = Ok x') →
  ∀ l l', mapM f l = Ok l' → mapM f l' = Ok l'.
Proof.
  intros Hf. induction l as [|x l IH]; intros l' Hm.
  - by injection Hm as <-.
  - cbn in Hm. apply bind_Ok in Hm as (y & Hy & Hm).
    apply bind_Ok in Hm as (k & Hk & [= <-]).
    cbn. by rewrite (Hf _ _ Hy), (IH _ Hk).
Qed.

Lemma rewriteContainer_stable imageURL entry entry' :
  rewriteContainer imageURL entry = Ok entry' →
  rewriteContainer imageURL entry' = Ok entry'.
Proof.
  destruct entry as [container| |]; try done. cbn.
  destruct (container !! imageKey); [|done]. intros [= <-]. cbn.
  by rewrite lookup_insert_eq, insert_insert_eq.
Qed.

Lemma rewriteContainers_stable imageURL containers containers' :
  rewriteContainers imageURL containers = Ok containers' →
  rewriteContainers imageURL containers' = Ok containers'.
Proof.
  destruct containers as [|entries|]; try done. cbn. intros Hr.
  apply bind_Ok in Hr as (entries' & He & [= <-]). cbn.
  by rewrite (mapM_stable _ (rewriteContainer_stable imageURL) _ _ He).
Qed.

(** C9. Rewriting the images twice with the same replacement gives what
    rewriting once gives: the same error when the first pass fails, the
    same set when it succeeds. *)
Theorem replaceDockerImageURL_idempotent (resources : ManifestDocumentSet)
  (imageURL : string) :
  replaceDockerImageURL resources imageURL
    ≫= (λ rewritten, replaceDockerImageURL rewritten imageURL)
  = replaceDockerImageURL resources imageURL.
Proof.
  destruct (replaceDockerImageURL resources imageURL) as [rewritten|e] eqn:Hr;
    [|done].
  cbn. revert Hr. apply mapM_stable. intros doc doc'.
  apply update_stable, rewriteContainers_stable.
Qed.

(** C1. An [Installation] whose [metadata.labels] holds [action] comes
    out of [removeActionLabel] with no error and with [action] deleted
    from [metadata.labels]: the root differs from the input at
    [metadata] only, [metadata] at [labels] only, [labels] at [action]
    only. *)
Theorem removeActionLabel_removes (root meta labels : gmap Scalar Value)
  (action : Value) :
  root !! SString "kind" = Some (str "Installation") →
  root !! SString "metadata" = Some (Mapping meta) →
  meta !! SString "labels" = Some (Mapping labels) →
  labels !! SString "action" = Some action →
  removeActionLabel [Mapping root]
  = ([Mapping (<[SString "metadata" :=
                  Mapping (<[SString "labels" :=
                              Mapping (delete (SString "action") labels)]> meta)]>
               root)],
     None).
Proof.
  intros Hkind Hmeta Hlabels Haction.
  cbn [removeActionLabel]. unfold stripDocument, hasKind, labelsPath.
  rewrite !get_field, Hkind, Hmeta. cbn. rewrite Hlabels. cbn.
  unfold actionKey. rewrite Haction. cbn. rewrite Hmeta, Hlabels. done.
Qed.

Lemma removeActionLabel_removes_witness :
  removeActionLabel labelled = (unlabelled, None).
Proof.
  etrans.
  - apply (removeActionLabel_removes
      (list_to_map
         [(SString "apiVersion", str "installer.kyma-project.io/v1alpha1");
          (SString "kind", str "Installation");
          (SString "metadata",
           mapping [("name", str "kyma-installation");
                    ("labels", mapping [("action", str "install")])])])
      (list_to_map
         [(SString "name", str "kyma-installation");
          (SString "labels", mapping [("action", str "install")])])
      (list_to_map [(SString "action", str "install")])
      (str "install")); vm_compute; reflexivity.
  - vm_compute. reflexivity.
Defined.

(** C2. An [Installation] whose [metadata.labels] does not hold [action]
    makes [removeActionLabel] report a StructuralError, and the document
    is as it was. *)
Theorem removeActionLabel_reports_absent (root meta labels : gmap Scalar Value) :
  root !! SString "kind" = Some (str "Installation") →
  root !! SString "metadata" = Some (Mapping meta) →
  meta !! SString "labels" = Some (Mapping labels) →
  labels !! SString "action" = None →
  removeActionLabel [Mapping root]
  = ([Mapping root], Some (MissingKey (SString "action"))).
Proof.
  intros Hkind Hmeta Hlabels Haction.
  cbn [removeActionLabel]. unfold stripDocument, hasKind, labelsPath.
  rewrite !get_field, Hkind, Hmeta. cbn. rewrite Hlabels. cbn.
  unfold actionKey. by rewrite Haction.
Qed.

Lemma removeActionLabel_reports_absent_witness :
  removeActionLabel unlabelled
  = (unlabelled, Some (MissingKey (SString "action"))).
Proof.
  apply (removeActionLabel_reports_absent
    (list_to_map
       [(SString "apiVersion", str "installer.kyma-project.io/v1alpha1");
        (SString "kind", str "Installation");
        (SString "metadata",
         mapping [("name", str "kyma-installation");
                  ("labels", mapping [])])])
    (list_to_map
       [(SString "name", str "kyma-installation");
        (SString "labels", mapping [])])
    ∅); vm_compute; reflexivity.
Defined.

(** C3. A document (a Deployment, say) whose
    [spec.template.spec.containers] is a Sequence of one Mapping with
    the image "eu.gcr.io/kyma-project/kyma-installer:63f27f76" is
    rewritten with "testImage!" without error, and the result differs
    from the input in that [image] only. *)
Theorem replaceDockerImageURL_rewrites
  (root spec template podSpec container : gmap Scalar Value) :
  root !! SString "spec" = Some (Mapping spec) →
  spec !! SString "template" = Some (Mapping template) →
  template !! SString "spec" = Some (Mapping podSpec) →
  podSpec !! SString "containers" = Some (Sequence [Mapping container]) →
  container !! SString "image"
    = Some (str "eu.gcr.io/kyma-project/kyma-installer:63f27f76") →
  replaceDockerImageURL [Mapping root] "testImage!"
  = Ok [Mapping (<[SString "spec" :=
          Mapping (<[SString "template" :=
            Mapping (<[SString "spec" :=
              Mapping (<[SString "containers" :=
                Sequence [Mapping (<[SString "image" := str "testImage!"]>
                                     container)]]> podSpec)]> template)]> spec)]>
        root)].
Proof.
  intros Hspec Htemplate HpodSpec Hcontainers Himage.
  unfold replaceDockerImageURL, rewriteDocument, containersPath. cbn [mapM].
  rewrite (update_field _ _ _ _ _ Hspec), (update_field _ _ _ _ _ Htemplate),
    (update_field _ _ _ _ _ HpodSpec), (update_field _ _ _ _ _ Hcontainers).
  cbn. unfold imageKey. by rewrite Himage.
Qed.

Lemma replaceDockerImageURL_rewrites_witness :
  replaceDockerImageURL
    (deployment "eu.gcr.io/kyma-project/kyma-installer:63f27f76")
    replacedWithData
  = Ok (deployment replacedWithData).
Proof.
  pose (container := list_to_map
    [(SString "name", str "kyma-installer-container");
     (SString "image", str "eu.gcr.io/kyma-project/kyma-installer:63f27f76")]
    : gmap Scalar Value).
  pose (podSpec := list_to_map
    [(SString "serviceAccountName", str "kyma-installer");
     (SString "containers", Sequence [Mapping container])]
    : gmap Scalar Value).
  pose (template := list_to_map [(SString "spec", Mapping podSpec)]
    : gmap Scalar Value).
  pose (spec := list_to_map [(SString "template", Mapping template)]
    : gmap Scalar Value).
  pose (root := list_to_map
    [(SString "apiVersion", str "installer.kyma-project.io/v1alpha1");
     (SString "kind", str "Deployment");
     (SString "spec", Mapping spec)] : gmap Scalar Value).
  etrans.
  - apply (replaceDockerImageURL_rewrites root spec template podSpec container);
      vm_compute; reflexivity.
  - vm_compute. reflexivity.
Defined.

(** C4. With [wait = false], [importCertificate] returns no error and
    does not call the certifier (the calls are those made before); the
    step keeps its state, its statuses and its infos, and gains one
    error entry, the manual instructions.  On the step of the test this
    reads: not successful, not stopped, no status, no info, exactly that
    one error. *)
Theorem importCertificate_no_wait `{Certifier C} (certifier : C) (w : World) :
  let result := importCertificate certifier false w in
  let tested := importCertificate certifier false beforeImport in
  (fst result = None
   ∧ calls (snd result) = calls w
   ∧ state (CurrentStep (snd result)) = state (CurrentStep w)
   ∧ statuses (CurrentStep (snd result)) = statuses (CurrentStep w)
   ∧ infos (CurrentStep (snd result)) = infos (CurrentStep w)
   ∧ errors (CurrentStep (snd result))
     = errors (CurrentStep w)
       ++ ["Manual OS-specific instructions for certificate import"])
  ∧ (fst tested = None
     ∧ calls (snd tested) = []
     ∧ isSuccessful (CurrentStep (snd tested)) = false
     ∧ isStopped (CurrentStep (snd tested)) = false
     ∧ statuses (CurrentStep (snd tested)) = []
     ∧ infos (CurrentStep (snd tested)) = []
     ∧ errors (CurrentStep (snd tested))
       = ["Manual OS-specific instructions for certificate import"]).
Proof. cbn. by repeat split. Qed.

End install_properties.

(** ** The GCP command: flags and extra pairs *)
Section gcp_inputs.
Import gcp.

(** X1. [validateFlags] returns no error exactly when the three required
    flags are all set. *)
Theorem validateFlags_nil_iff (c : command) :
  validateFlags c = None
  ↔ Name (opts c) ≠ "" ∧ Project (opts c) ≠ ""
    ∧ CredentialsFile (opts c) ≠ "".
Proof.
  unfold validateFlags.
  destruct (String.eqb_spec (Name (opts c)) ""),
    (String.eqb_spec (Project (opts c)) ""),
    (String.eqb_spec (CredentialsFile (opts c)) ""); cbn;
    (split; [intros ?|intros (? & ? & ?)]; done).
Qed.

(** X2. The message of [validateFlags] holds the line of a required flag
    exactly when that flag is empty: a flag that is set is never
    reported, a flag that is missing always is. *)
Theorem validateFlags_reports_exactly (c : command) (msg : error) :
  validateFlags c = Some msg →
  (mentions nameLine msg ↔ Name (opts c) = "")
  ∧ (mentions projectLine msg ↔ Project (opts c) = "")
  ∧ (mentions credentialsLine msg ↔ CredentialsFile (opts c) = "").
Proof.
  unfold validateFlags.
  destruct (String.eqb_spec (Name (opts c)) ""),
    (String.eqb_spec (Project (opts c)) ""),
    (String.eqb_spec (CredentialsFile (opts c)) ""); cbn; intros [= <-];
    repeat split; intros Hm; try done;
    try (apply contains_mentions; vm_compute; reflexivity);
    exfalso; revert Hm; apply not_contains_not_mentions;
    vm_compute; reflexivity.
Qed.

Lemma validateFlags_reports_exactly_witness :
  let msg := nl +:+ projectLine +:+ nl +:+ credentialsLine in
  (mentions nameLine msg ↔ "demo" = "")
  ∧ (mentions projectLine msg ↔ "" = "")
  ∧ (mentions credentialsLine msg ↔ "" = "").
Proof.
  apply (validateFlags_reports_exactly
           {| opts := withRequired "demo" "" "" defaults |}).
  reflexivity.
Defined.

(** *** Splitting a pair *)

Lemma Split_nonempty (s : string) (sep : ascii) : strings.Split s sep ≠ [].
Proof.
  destruct s as [|c s]; cbn; [done|].
  destruct (Ascii.eqb c sep); [done|]. by destruct (strings.Split s sep).
Qed.

Lemma Count_cons_0 (c : ascii) (s : string) (sep : ascii) :
  strings.Count (String c s) sep = 0 →
  Ascii.eqb c sep = false ∧ strings.Count s sep = 0.
Proof. cbn. destruct (Ascii.eqb c sep); cbn; [done|]. by split. Qed.

Lemma Split_no_sep (s : string) (sep : ascii) :
  strings.Count s sep = 0 → strings.Split s sep = [s].
Proof.
  induction s as [|c s IH]; [done|].
  intros [Hc Hs]%Count_cons_0. cbn. by rewrite Hc, (IH Hs).
Qed.

Lemma Split_cut (n s : string) (sep : ascii) :
  strings.Count n sep = 0 →
  strings.Split (n +:+ String sep s) sep = n :: strings.Split s sep.
Proof.
  induction n as [|c n IH].
  - intros _. change ("" +:+ ?x) with x.
    cbn [strings.Split]. by rewrite Ascii.eqb_refl.
  - intros [Hc Hn]%Count_cons_0.
    change (String c n +:+ ?x) with (String c (n +:+ x)).
    cbn [strings.Split]. by rewrite Hc, (IH Hn).
Qed.

Lemma Split_pieces (s : string) (sep : ascii) :
  Forall (λ piece, strings.Count piece sep = 0) (strings.Split s sep).
Proof.
  induction s as [|c s IH]; cbn; [by repeat constructor|].
  destruct (Ascii.eqb c sep) eqn:Hc; [by constructor|].
  destruct (strings.Split s sep) as [|piece pieces];
    [by repeat constructor; cbn; rewrite Hc|].
  inversion_clear IH. constructor; [|done]. cbn. by rewrite Hc.
Qed.

Lemma Split_one (s piece : string) (sep : ascii) :
  strings.Split s sep = [piece] → s = piece.
Proof.
  revert piece. induction s as [|c s IH]; intros piece; cbn.
  - by intros [= <-].
  - destruct (Ascii.eqb c sep).
    + intros [= _ H]. by apply Split_nonempty in H.
    + pose proof (Split_nonempty s sep) as Hne.
      destruct (strings.Split s sep) as [|p ps]; [done|].
      intros [= <- ->]. by rewrite (IH p).
Qed.

Lemma Split_two (s a b : string) (sep : ascii) :
  strings.Split s sep = [a; b] → s = a +:+ String sep b.
Proof.
  revert a. induction s as [|c s IH]; intros a; cbn; [done|].
  destruct (Ascii.eqb_spec c sep) as [->|_].
  - intros [= <- H]. by rewrite (Split_one _ _ _ H).
  - destruct (strings.Split s sep) as [|p ps]; [done|].
    intros [= <- ->]. by rewrite (IH p).
Qed.

Lemma Split_pair (nv : string * string) :
  strings.Count nv.1 "=" = 0 → strings.Count nv.2 "=" = 0 →
  strings.Split (pair nv) "=" = [nv.1; nv.2].
Proof.
  intros Hn Hv. unfold pair.
  change ("=" +:+ nv.2) with (String "="%char nv.2).
  by rewrite (Split_cut _ _ _ Hn), (Split_no_sep _ _ Hv).
Qed.

(** X3. A pair that [newProvider] accepts is its name, one "=" and its
    value, and neither the name nor the value holds an "=": the split
    loses nothing. *)
Theorem wellFormed_name_value (e : string) :
  wellFormed e →
  e = nameOf e +:+ "=" +:+ valueOf e
  ∧ strings.Count (nameOf e) "=" = 0
  ∧ strings.Count (valueOf e) "=" = 0.
Proof.
  unfold wellFormed, nameOf, valueOf. intros Hlen.
  pose proof (Split_pieces e "=") as Hp.
  destruct (strings.Split e "=") as [|a [|b [|]]] eqn:Hs; try done.
  cbn. split; [by apply Split_two|].
  inversion_clear Hp as [|? ? Ha Hp']. by inversion_clear Hp'.
Qed.

Lemma wellFormed_name_value_witness :
  "region=europe-west3"
  = nameOf "region=europe-west3" +:+ "=" +:+ valueOf "region=europe-west3"
  ∧ strings.Count (nameOf "region=europe-west3") "=" = 0
  ∧ strings.Count (valueOf "region=europe-west3") "=" = 0.
Proof. apply (wellFormed_name_value "region=europe-west3"). reflexivity. Defined.

(** *** The custom configurations *)

Lemma applyPair_configurations (extra : list string) (p : Provider) :
  CustomConfigurations (foldl applyPair p extra)
  = foldl (λ m e, <[nameOf e := valueOf e]> m) (CustomConfigurations p) extra.
Proof. revert p. induction extra as [|e extra IH]; intros p; [done|apply IH]. Qed.

Lemma nameOf_valueOf_pair (nv : string * string) :
  strings.Count nv.1 "=" = 0 → strings.Count nv.2 "=" = 0 →
  nameOf (pair nv) = nv.1 ∧ valueOf (pair nv) = nv.2.
Proof.
  intros Hn Hv. unfold nameOf, valueOf. by rewrite (Split_pair nv Hn Hv).
Qed.

Lemma foldl_pairs (pairs : list (string * string)) (m : gmap string string) :
  Forall (λ nv, strings.Count nv.1 "=" = 0 ∧ strings.Count nv.2 "=" = 0) pairs →
  foldl (λ m e, <[nameOf e := valueOf e]> m) m (pair <$> pairs)
  = foldl (λ m nv, <[nv.1 := nv.2]> m) m pairs.
Proof.
  intros Hfree. revert m.
  induction Hfree as [|nv pairs [Hn Hv] _ IH]; intros m; [done|].
  rewrite fmap_cons. cbn [foldl].
  destruct (nameOf_valueOf_pair nv Hn Hv) as [-> ->]. apply IH.
Qed.

Lemma foldl_insert_list_to_map (pairs : list (string * string)) :
  foldl (λ (m : gmap string string) nv, <[nv.1 := nv.2]> m) ∅ pairs
  = list_to_map (reverse pairs).
Proof.
  induction pairs as [|nv pairs IH] using rev_ind; [done|].
  by rewrite foldl_app, reverse_snoc, IH.
Qed.

Lemma pairs_wellFormed (pairs : list (string * string)) :
  Forall (λ nv, strings.Count nv.1 "=" = 0 ∧ strings.Count nv.2 "=" = 0) pairs →
  Forall wellFormed (pair <$> pairs).
Proof.
  induction 1 as [|nv pairs [Hn Hv] _ IH]; constructor; [|done].
  unfold wellFormed. by rewrite (Split_pair nv Hn Hv).
Qed.

(** X4. Written as NAME=VALUE with no "=" inside a name or a value, a
    list of pairs is accepted by [newProvider] as a whole, and the custom
    configurations are those pairs: a name that no pair has is absent,
    and a name holds the value of the last pair that has it. *)
Theorem newProvider_stores_pairs (o : Options)
  (pairs : list (string * string)) :
  Extra o = pair <$> pairs →
  Forall (λ nv, strings.Count nv.1 "=" = 0 ∧ strings.Count nv.2 "=" = 0) pairs →
  snd (newProvider o) = None
  ∧ (∀ name, name ∉ pairs.*1 →
       CustomConfigurations (fst (newProvider o)) !! name = None)
  ∧ (∀ front name value back,
       pairs = front ++ (name, value) :: back → name ∉ back.*1 →
       CustomConfigurations (fst (newProvider o)) !! name = Some value).
Proof.
  intros HE Hfree.
  assert (newProvider o = (applied (pair <$> pairs) o, None)) as ->.
  { unfold newProvider, applied. rewrite HE.
    by apply newProvider_range_ok, pairs_wellFormed. }
  cbn [fst snd].
  assert (CustomConfigurations (applied (pair <$> pairs) o)
          = list_to_map (reverse pairs)) as ->.
  { unfold applied. rewrite applyPair_configurations. cbn.
    by rewrite foldl_pairs, foldl_insert_list_to_map. }
  split; [done|split].
  - intros name Hname. apply not_elem_of_list_to_map_1.
    by rewrite fmap_reverse, elem_of_reverse.
  - intros front name value back -> Hback.
    rewrite reverse_app, reverse_cons, <- app_assoc, list_to_map_app.
    rewrite lookup_union_r.
    + cbn. apply lookup_insert_eq.
    + apply not_elem_of_list_to_map_1.
      by rewrite fmap_reverse, elem_of_reverse.
Qed.

Lemma newProvider_stores_pairs_witness :
  let o := withExtra ["zone=a"; "tier=dev"; "zone=b"] demo in
  snd (newProvider o) = None
  ∧ (∀ name, name ∉ [("zone", "a"); ("tier", "dev"); ("zone", "b")].*1 →
       CustomConfigurations (fst (newProvider o)) !! name = None)
  ∧ (∀ front name value back,
       [("zone", "a"); ("tier", "dev"); ("zone", "b")]
       = front ++ (name, value) :: back → name ∉ back.*1 →
       CustomConfigurations (fst (newProvider o)) !! name = Some value).
Proof.
  apply (newProvider_stores_pairs
           (withExtra ["zone=a"; "tier=dev"; "zone=b"] demo)
           [("zone", "a"); ("tier", "dev"); ("zone", "b")]).
  - reflexivity.
  - repeat constructor.
Defined.

Lemma newProvider_range_fields (extra : list string) (p : Provider) :
  Type_ (fst (newProvider_range extra p)) = Type_ p
  ∧ ProjectName (fst (newProvider_range extra p)) = ProjectName p
  ∧ CredentialsFilePath (fst (newProvider_range extra p))
    = CredentialsFilePath p.
Proof.
  revert p. induction extra as [|e extra IH]; intros p; [done|].
  cbn [newProvider_range].
  destruct (negb (length (strings.Split e "=") =? 2)%nat); [done|].
  apply (IH (setCustomConfiguration _ _ p)).
Qed.

(** X5. Whatever the extra pairs are, and whether or not [newProvider]
    fails on them, the provider it returns is a GCP provider with the
    project and the credentials file of the options: no pair, whatever
    its name, touches them. *)
Theorem newProvider_fixed_fields (o : Options) :
  Type_ (fst (newProvider o)) = GCP
  ∧ ProjectName (fst (newProvider o)) = Project o
  ∧ CredentialsFilePath (fst (newProvider o)) = CredentialsFile o.
Proof. apply newProvider_range_fields. Qed.

End gcp_inputs.

(** ** The GCP command: every run of the pipeline *)
Section gcp_pipeline.
Import gcp.

(** Every way a run can go: which of the checks and collaborators is the
    first to fail, if any.  Leaves one goal per way, the run computed. *)
Ltac outcomes ext c :=
  let p := fresh "p" in
  let cl := fresh "cl" in
  let k := fresh "k" in
  unfold Run;
  destruct (validateFlags c) as [?|] eqn:?;
  [|destruct (newProvider (opts c)) as [p [?|]] eqn:?;
    [|destruct (Verbose (opts c)) eqn:?;
      unfold NewStep, Provision, SaveClusterState, Credentials, AppendConfig,
        Success, Failure, emit, mbind, M_bind, mret, M_ret;
      cbn [description negb];
      (destruct (hf_Provision ext (newCluster (opts c)) p)
         as [cl [?|]] eqn:?;
       [|destruct (files_SaveClusterState ext cl p) as [?|] eqn:?;
         [|destruct (hf_Credentials ext cl p) as [k [?|]] eqn:?;
           [|destruct (kube_AppendConfig ext k (KubeconfigPath (opts c)))
               as [?|] eqn:?]]])]];
  cbn.

(** X6. [Run] leaves the outside untouched exactly when the flags are
    invalid or an extra pair is malformed; with valid input it always
    does something. *)
Theorem Run_untouched_iff (ext : External) (c : command) (t : Trace) :
  snd (Run ext c t) = t
  ↔ validateFlags c ≠ None ∨ snd (newProvider (opts c)) ≠ None.
Proof.
  outcomes ext c;
    (split;
     [intros H; try (by left); try (by right); exfalso;
      apply (f_equal length) in H; rewrite !length_app in H; cbn in H; lia
     |by intros [?|?]]).
Qed.

(** X7. When the input is valid and the four collaborators succeed,
    [Run] returns no error after exactly this: the three steps, each
    opened and closed with success, in order.  The state is saved and the
    credentials are fetched for the cluster that [hf.Provision] returned,
    not for the one requested; the kubeconfig merged is the one that
    [hf.Credentials] returned, into the configured path; the closing
    message names the returned cluster. *)
Theorem Run_success (ext : External) (c : command) (t : Trace)
  (provider : Provider) (cluster : Cluster) (kubeconfig : string) :
  validateFlags c = None →
  newProvider (opts c) = (provider, None) →
  hf_Provision ext (newCluster (opts c)) provider = (cluster, None) →
  files_SaveClusterState ext cluster provider = None →
  hf_Credentials ext cluster provider = (kubeconfig, None) →
  kube_AppendConfig ext kubeconfig (KubeconfigPath (opts c)) = None →
  Run ext c t
  = (None,
     t ++ (if Verbose (opts c) then [] else [LogSetOutputDiscard])
       ++ [StepStart "Provisioning GCP cluster";
           CallProvision (newCluster (opts c)) provider;
           StepSuccess "Provisioning GCP cluster";
           StepStart "Saving cluster state";
           CallSaveClusterState cluster provider;
           StepSuccess "Saving cluster state";
           StepStart "Importing kubeconfig";
           CallCredentials cluster provider;
           CallAppendConfig kubeconfig (KubeconfigPath (opts c));
           StepSuccess "Importing kubeconfig";
           Printf (happyMessage (cl_Name cluster))]).
Proof.
  intros Hv Hnew Hp Hs Hc Ha. unfold Run. rewrite Hv, Hnew.
  rewrite (run_bind _ _ _ _ _ (run_quiet _ _)).
  unfold NewStep, Provision, SaveClusterState, Credentials, AppendConfig,
    Success, Failure, emit, mbind, M_bind, mret, M_ret.
  cbn [description]. rewrite Hp, Hs, Hc, Ha. by rewrite <- !app_assoc.
Qed.

Lemma Run_success_witness :
  let cluster :=
    {| cl_Name := "gke-demo-1"; cl_KubernetesVersion := "1.14";
       cl_DiskSizeGB := 30; cl_NodeCount := 3;
       cl_Location := "europe-west3-a"; cl_MachineType := "n1-standard-4" |} in
  Run (renaming "gke-demo-1") {| opts := demo |} []
  = (None,
     [] ++ (if Verbose demo then [] else [LogSetOutputDiscard])
       ++ [StepStart "Provisioning GCP cluster";
           CallProvision (newCluster demo) (applied [] demo);
           StepSuccess "Provisioning GCP cluster";
           StepStart "Saving cluster state";
           CallSaveClusterState cluster (applied [] demo);
           StepSuccess "Saving cluster state";
           StepStart "Importing kubeconfig";
           CallCredentials cluster (applied [] demo);
           CallAppendConfig "apiVersion: v1" (KubeconfigPath demo);
           StepSuccess "Importing kubeconfig";
           Printf (happyMessage "gke-demo-1")]).
Proof.
  apply (Run_success (renaming "gke-demo-1") {| opts := demo |} []
           (applied [] demo)); reflexivity.
Defined.

(** X8. [Run] returns no error exactly when the flags are valid, the
    extra pairs are well-formed and the four collaborators, each called
    with what the one before it returned, all succeed. *)
Theorem Run_nil_iff (ext : External) (c : command) (t : Trace) :
  fst (Run ext c t) = None
  ↔ validateFlags c = None
    ∧ ∃ provider cluster kubeconfig,
        newProvider (opts c) = (provider, None)
        ∧ hf_Provision ext (newCluster (opts c)) provider = (cluster, None)
        ∧ files_SaveClusterState ext cluster provider = None
        ∧ hf_Credentials ext cluster provider = (kubeconfig, None)
        ∧ kube_AppendConfig ext kubeconfig (KubeconfigPath (opts c)) = None.
Proof.
  outcomes ext c;
    (split;
     [intros H;
      first [discriminate H | split; [done|]; eexists _, _, _; by repeat split]
     |intros (? & ? & ? & ? & ? & ? & ? & ? & ?); simplify_eq; congruence]).
Qed.

(** X9. An error that [Run] returns is the error of [validateFlags], or
    the error of [newProvider], or an error that a collaborator reported:
    [Run] has no error of its own. *)
Theorem Run_error_sources (ext : External) (c : command) (t : Trace)
  (e : error) :
  fst (Run ext c t) = Some e →
  validateFlags c = Some e
  ∨ (validateFlags c = None ∧ snd (newProvider (opts c)) = Some e)
  ∨ ∃ description,
      reported ext c (fst (newProvider (opts c))) description e.
Proof.
  outcomes ext c; intros [= <-]; auto;
    right; right; eexists;
    first [ by eapply reported_provision
          | by eapply reported_save
          | by eapply reported_credentials
          | by eapply reported_append ].
Qed.

Lemma Run_error_sources_witness :
  validateFlags {| opts := demo |} = Some "permission denied"
  ∨ (validateFlags {| opts := demo |} = None
     ∧ snd (newProvider demo) = Some "permission denied")
  ∨ ∃ description,
      reported (appendFails "permission denied") {| opts := demo |}
        (fst (newProvider demo)) description "permission denied".
Proof.
  apply (Run_error_sources (appendFails "permission denied")
           {| opts := demo |} []).
  reflexivity.
Defined.

(** X10. Every run keeps the discipline of steps: a step is opened only
    when none is open and is closed under its own description, the
    collaborators are called only inside a step, and nothing follows a
    failed step.  A run ends between steps, or with a failed step and an
    error; it never ends with a step left open. *)
Theorem Run_step_discipline (ext : External) (c : command) :
  follow Idle (snd (Run ext c [])) = Some Idle
  ∨ (follow Idle (snd (Run ext c [])) = Some Aborted
     ∧ fst (Run ext c []) ≠ None).
Proof. outcomes ext c; auto. Qed.

(** X11. In every run the collaborators are called in the order
    provisioner, state file, credentials, kubeconfig, each at most once,
    and the steps are opened in the order "Provisioning GCP cluster",
    "Saving cluster state", "Importing kubeconfig", each at most once: a
    run stops somewhere along these lists, and never goes back. *)
Theorem Run_order (ext : External) (c : command) :
  omap callOf (snd (Run ext c []))
    `prefix_of` [TheProvisioner; TheStateFile; TheCredentials; TheKubeconfig]
  ∧ omap stepOpened (snd (Run ext c []))
    `prefix_of` ["Provisioning GCP cluster"; "Saving cluster state";
                 "Importing kubeconfig"].
Proof. outcomes ext c; split; by eexists. Qed.

(** X12. The closing message is printed exactly in the runs that return
    no error. *)
Theorem Run_prints_iff_nil (ext : External) (c : command) :
  existsb isPrintf (snd (Run ext c [])) = true ↔ fst (Run ext c []) = None.
Proof. outcomes ext c; by split. Qed.

(** X13. The global logger is silenced exactly in the runs that are not
    verbose and pass the validation of the flags and of the extra pairs;
    then it is the first thing the run does. *)
Theorem Run_silences_log_iff (ext : External) (c : command) :
  (existsb isLogSetOutputDiscard (snd (Run ext c [])) = true
   ↔ Verbose (opts c) = false ∧ validateFlags c = None
     ∧ snd (newProvider (opts c)) = None)
  ∧ (existsb isLogSetOutputDiscard (snd (Run ext c [])) = true →
     head (snd (Run ext c [])) = Some LogSetOutputDiscard).
Proof.
  outcomes ext c; (split; [split; [intros H|intros (? & ? & ?)]|]); done.
Qed.

(** X14. The kubeconfig is merged only after the cluster is provisioned,
    its state saved and its credentials fetched, all without error; what
    is merged is what [hf.Credentials] returned, and it goes to the
    configured path. *)
Theorem Run_kubeconfig_guard (ext : External) (c : command)
  (kubeconfig path : string) :
  CallAppendConfig kubeconfig path ∈ snd (Run ext c []) →
  path = KubeconfigPath (opts c)
  ∧ ∃ provider cluster,
      newProvider (opts c) = (provider, None)
      ∧ hf_Provision ext (newCluster (opts c)) provider = (cluster, None)
      ∧ files_SaveClusterState ext cluster provider = None
      ∧ hf_Credentials ext cluster provider = (kubeconfig, None).
Proof.
  outcomes ext c; intros H;
    repeat (apply elem_of_cons in H as [H|H]; [try discriminate H|]);
    try (by apply elem_of_nil in H);
    injection H as -> ->; (split; [done|]); by eexists _, _.
Qed.

Lemma Run_kubeconfig_guard_witness :
  "" = KubeconfigPath demo
  ∧ ∃ provider cluster,
      newProvider demo = (provider, None)
      ∧ hf_Provision allFine (newCluster demo) provider = (cluster, None)
      ∧ files_SaveClusterState allFine cluster provider = None
      ∧ hf_Credentials allFine cluster provider = ("apiVersion: v1", None).
Proof.
  apply (Run_kubeconfig_guard allFine {| opts := demo |} "apiVersion: v1" "").
  vm_compute.
  repeat first [apply list_elem_of_here | apply list_elem_of_further].
Defined.

End gcp_pipeline.
